(** * build.py: the makefile generator of the Lemon compiler

    A shallow embedding of [build.py].  Python strings are modelled as
    [list ascii] (the decoded text of [gcc -MM] and the literals of the
    script), Python exceptions as the constructors of [exn], and the
    external shell command run by [subprocess.run(..., check=True)] as an
    oracle [shell] giving the captured standard output on exit status 0
    and [None] on a nonzero exit status. *)

From Stdlib Require Import List String Ascii ZArith Lia Bool.
Import ListNotations.
Open Scope list_scope.

(** ** Characters and text *)

Definition text := list ascii.

(** A string literal of the script, as text. *)
Definition lit (s : string) : text := list_ascii_of_string s.

Definition NL : ascii := ascii_of_nat 10.
Definition TAB : ascii := ascii_of_nat 9.
Definition SP : ascii := ascii_of_nat 32.
Definition QUOTE : ascii := ascii_of_nat 34.
Definition BSLASH : ascii := ascii_of_nat 92.
Definition COLON : ascii := ascii_of_nat 58.

(** Python's [str.isspace] restricted to code points below 256: the
    separators used by [str.split()] with no argument. *)
Definition is_space (c : ascii) : bool :=
  let n := nat_of_ascii c in
  ((9 <=? n) && (n <=? 13)) || ((28 <=? n) && (n <=? 32))
  || (n =? 133) || (n =? 160).

(** [str.split()] with no argument: maximal runs of non-space characters.
    [cur] is the current word, reversed. *)
Definition flush (cur : text) : list text :=
  match cur with [] => [] | _ => [rev cur] end.

Fixpoint split_aux (cur : text) (s : text) : list text :=
  match s with
  | [] => flush cur
  | c :: s' =>
      if is_space c then flush cur ++ split_aux [] s'
      else split_aux (c :: cur) s'
  end.

Definition split (s : text) : list text := split_aux [] s.

(** [sep.join(l)] *)
Fixpoint join (sep : text) (l : list text) : text :=
  match l with
  | [] => []
  | [x] => x
  | x :: l' => x ++ sep ++ join sep l'
  end.

(** [s.find(c)]: the index of the first occurrence, or -1. *)
Fixpoint py_find (c : ascii) (s : text) : Z :=
  match s with
  | [] => (-1)%Z
  | x :: s' =>
      if Ascii.eqb x c then 0%Z
      else let i := py_find c s' in if (i <? 0)%Z then (-1)%Z else (i + 1)%Z
  end.

(** [word[-3:]]: the whole word when it is shorter than three characters. *)
Definition last3 (w : text) : text := skipn (List.length w - 3) w.

(** [word[:-1]] on a non-empty word. *)
Definition drop_last (w : text) : text := firstn (List.length w - 1) w.

(** ** Exceptions and the error monad *)

Inductive exn :=
| CalledProcessError (cmd : text)
| AssertionError
| ValueError (msg : text).

Inductive result (A : Type) :=
| Ok (a : A)
| Err (e : exn).
Arguments Ok {A} a.
Arguments Err {A} e.

Definition bind {A B} (m : result A) (k : A -> result B) : result B :=
  match m with Ok a => k a | Err e => Err e end.

Notation "x <- m ;; k" := (bind m (fun x => k))
  (at level 61, m at next level, right associativity).

(** The outcome of a shell command run with [check=True, capture_output=True]:
    the standard output, decoded, when the exit status is 0; [None] otherwise. *)
Definition shell := text -> option text.

(** ** Configuration tables *)

Definition executable_name : text := lit "lemon".
Definition debug_dir : text := lit "./debug/".
Definition release_dir : text := lit "./release/".

Record config := {
  files : list text;
  libraries : list text
}.

Definition default_config : config := {|
  files := map lit
    ["./src/main.c"; "./src/xerror.c"; "./src/options.c"; "./src/file.c";
     "./src/jobs.c"; "./src/scanner.c"; "./src/parser.c"; "./src/symtab.c";
     "./src/assets/kmap.c"; "./extern/cexception/CException.c"]%string;
  libraries := [lit "pthread"]
|}.

Definition line (s : text) : text := s ++ [NL].
Definition tline (s : text) : text := TAB :: s ++ [NL].
Definition quoted (s : text) : text := [QUOTE] ++ s ++ [QUOTE].

Definition preamble : text :=
  line (lit "CC = gcc") ++ line [] ++
  line (lit "CFLAGS = -std=gnu17 -Wall -Wextra -Werror -Wpedantic") ++
  line (lit "CFLAGS += -Wconversion -Wcast-qual -Wnull-dereference") ++
  line (lit "CFLAGS += -Wdouble-promotion") ++ line [] ++
  line (lit "# enable coloured error output from ./src/xerror.c") ++
  line (lit "CFLAGS += -DCOLOURS") ++ line [] ++
  line (lit "#allows for templated data structures in ./src/lib") ++
  line (lit "CFLAGS += -Wno-unused-function") ++ line [] ++
  line (lit ".PHONY: all") ++ line [].

Definition debug_build : text :=
  line (lit ".PHONY: debug debug_deps") ++ line [] ++
  line (lit "debug: CFLAGS += -ggdb -O0 -DDEBUG") ++
  line (lit "debug: debug_deps " ++ debug_dir ++ lit "lemon") ++
  tline (lit "@echo " ++ quoted (lit "\nBuild finished successfully.")) ++
  tline (lit "@echo " ++ quoted (lit "Lemon was compiled in debug mode.")) ++
  tline (lit "@echo " ++ quoted (lit "Issue 'make release' to turn on optimisations.")) ++
  line [] ++
  line (lit "debug_deps:") ++
  tline (lit "@mkdir -p " ++ debug_dir) ++ line [].

Definition release_build : text :=
  line (lit ".PHONY: release release_deps") ++ line [] ++
  line (lit "release: CFLAGS += -O3 -march=native") ++
  line (lit "release: release_deps " ++ release_dir ++ lit "lemon") ++
  tline (lit "@echo " ++ quoted (lit "\nBuild finished successfully.")) ++
  tline (lit "@echo " ++ quoted (lit "Lemon was compiled in release mode.")) ++
  line [] ++
  line (lit "release_deps:") ++
  tline (lit "@mkdir -p " ++ release_dir) ++ line [].

Definition clean : text :=
  line (lit ".PHONY: clean") ++ line [] ++
  line (lit "clean:") ++
  tline (lit "@rm -rf " ++ debug_dir ++ lit " " ++ release_dir) ++
  tline (lit "@echo " ++ quoted (lit "directories cleaned")).

(** ** Rule construction *)

(** [insert_source]: inject [file] as the first prerequisite of a
    [gcc -MM] rule. *)
Definition insert_source (rule file : text) : result text :=
  let colon := (py_find COLON rule + 1)%Z in
  if (colon =? 0)%Z then Err AssertionError
  else Ok (firstn (Z.to_nat colon) rule ++ lit " " ++ file ++ lit " "
           ++ skipn (Z.to_nat colon) rule).

Definition gcc_mm_command (file : text) : text := lit "gcc -MM " ++ file.

Definition object_recipe : text := [NL; TAB] ++ lit "$(CC) $(CFLAGS) -c -o $@ $<" ++ [NL; NL].

(** [create_object_rule] *)
Definition create_object_rule (run : shell) (directory file : text) : result text :=
  let command := gcc_mm_command file in
  match run command with
  | None => Err (CalledProcessError command)
  | Some stdout =>
      prerequisites <- insert_source stdout file ;;
      let target := directory in
      Ok (target ++ prerequisites ++ object_recipe)
  end.

(** The loop body of [get_linker_prerequisites] for one token. *)
Definition pattern : text := lit ".o:".

Definition scan_word (objects : list text) (word : text) : list text :=
  let tail := last3 word in
  if list_eq_dec ascii_dec tail pattern then objects ++ [drop_last word]
  else objects.

(** The list [objects] built by [get_linker_prerequisites]. *)
Definition linker_objects (script : text) : list text :=
  fold_left scan_word (split script) [].

Definition get_linker_prerequisites (script : text) : text :=
  join (lit " ") (linker_objects script).

(** The list [flags] built by [get_libraries]. *)
Definition library_flags (libraries : list text) : list text :=
  fold_left (fun flags lib => flags ++ [lit "-l" ++ lib]) libraries [].

Definition get_libraries (libraries : list text) : text :=
  join (lit " ") (library_flags libraries).

Definition exe_recipe (libraries : list text) : text :=
  [NL; TAB] ++ lit "$(CC) -o $@ $^ " ++ get_libraries libraries ++ [NL; NL].

(** [create_exe_rule]; the global [libraries] is passed explicitly. *)
Definition create_exe_rule (libraries : list text) (directory script : text) : text :=
  let target := directory ++ executable_name ++ lit ": " in
  let prerequisites := get_linker_prerequisites script in
  target ++ prerequisites ++ exe_recipe libraries.

(** The [for file in files] loop of [build]. *)
Fixpoint build_loop (run : shell) (directory : text) (fs : list text) (script : text)
  : result text :=
  match fs with
  | [] => Ok script
  | file :: fs' =>
      rule <- create_object_rule run directory file ;;
      build_loop run directory fs' (script ++ rule)
  end.

(** The profile header chosen by [build].  In the last branch the source
    evaluates [ValueError("invalid target directory: ...")] without
    raising it, so [script] stays empty and execution continues. *)
Definition build_header (directory : text) : text :=
  if list_eq_dec ascii_dec directory debug_dir then debug_build
  else if list_eq_dec ascii_dec directory release_dir then release_build
  else let _ := ValueError (lit "invalid target directory: " ++ directory) in [].

Definition build (cfg : config) (run : shell) (directory : text) : result text :=
  script <- build_loop run directory (files cfg) (build_header directory) ;;
  Ok (script ++ create_exe_rule (libraries cfg) directory script).

Definition create_makefile (cfg : config) (run : shell) : result text :=
  d <- build cfg run debug_dir ;;
  r <- build cfg run release_dir ;;
  Ok (preamble ++ d ++ r ++ clean).

(** The [__main__] block: [print(makefile)] writes the script and a newline
    to standard output; an uncaught exception prints nothing there and ends
    the process with exit status 1. *)
Definition main (cfg : config) (run : shell) : text * Z :=
  match create_makefile cfg run with
  | Ok makefile => (makefile ++ [NL], 0%Z)
  | Err _ => ([], 1%Z)
  end.

(** ** Reading the generated rules back

    How the build-execution tool (GNU make) reads one rule of the script:
    the target is the text before the first colon; the prerequisites are the
    words of the logical line after it, where a backslash-newline pair
    continues the line as a single space. *)

Definition after_first_colon (rule : text) : text :=
  skipn (Z.to_nat (py_find COLON rule + 1)) rule.

Definition rule_target (rule : text) : text :=
  firstn (Z.to_nat (py_find COLON rule)) rule.

Fixpoint logical_line (s : text) : text :=
  match s with
  | [] => []
  | c :: s' =>
      if Ascii.eqb c NL then []
      else if Ascii.eqb c BSLASH then
        match s' with
        | c' :: s'' => if Ascii.eqb c' NL then SP :: logical_line s''
                      else c :: logical_line s'
        | [] => [c]
        end
      else c :: logical_line s'
  end.

Definition rule_prerequisites (rule : text) : list text :=
  split (logical_line (after_first_colon rule)).

(** The profile directories that [create_makefile] passes to [build]. *)
Definition profile_dirs : list text := [debug_dir; release_dir].

(** A sample shell for the witnesses: [gcc -MM <dir>/<stem>.c] prints
    [<stem>.o: <dir>/<stem>.c] and a newline. *)
Fixpoint base_name (acc p : text) : text :=
  match p with
  | [] => rev acc
  | c :: p' => if Ascii.eqb c "/"%char then base_name [] p' else base_name (c :: acc) p'
  end.

Definition sample_shell (command : text) : option text :=
  let file := skipn 8 command in
  let stem := firstn (List.length (base_name [] file) - 2) (base_name [] file) in
  Some (stem ++ lit ".o: " ++ file ++ [NL]).

(** Word-level predicates used by the statements. *)
Definition ends_obj (w : text) : bool :=
  if list_eq_dec ascii_dec (last3 w) pattern then true else false.

Definition no_obj_token (s : text) : bool :=
  forallb (fun w => negb (ends_obj w)) (split s).

Definition word_char (c : ascii) : bool :=
  negb (is_space c) && negb (Ascii.eqb c COLON).

(** A configured path that [make] reads as one word and that carries no
    backslash. *)
Definition plain_path (f : text) : bool :=
  negb (match f with [] => true | _ => false end)
  && forallb (fun c => negb (is_space c) && negb (Ascii.eqb c BSLASH)) f.

(** The one-rule form of [gcc -MM] output: [<stem>.o:] followed by
    prerequisites none of which is a word ending in [.o:]. *)
Definition one_rule_form (out : text) : Prop :=
  exists stem rest,
    out = stem ++ lit ".o" ++ COLON :: rest
    /\ forallb word_char stem = true
    /\ no_obj_token rest = true.

(** ** General lemmas on the text operations *)

Section Text.

Lemma flush_nil : flush [] = [].
Proof. reflexivity. Qed.

Lemma split_aux_app_space (c : ascii) (b : text) :
  is_space c = true ->
  forall a cur, split_aux cur (a ++ c :: b) = split_aux cur a ++ split b.
Proof.
  intros Hc a. induction a as [|x a IH]; intros cur; simpl.
  - rewrite Hc. reflexivity.
  - destruct (is_space x).
    + rewrite IH, app_assoc. reflexivity.
    + apply IH.
Qed.

Lemma split_app_space (c : ascii) (a b : text) :
  is_space c = true -> split (a ++ c :: b) = split a ++ split b.
Proof. intros Hc. apply split_aux_app_space; exact Hc. Qed.

Lemma split_aux_word (w b : text) :
  forallb (fun c => negb (is_space c)) w = true ->
  forall cur, split_aux cur (w ++ b) = split_aux (rev w ++ cur) b.
Proof.
  induction w as [|x w IH]; intros Hw cur; simpl in *; [reflexivity|].
  apply andb_prop in Hw as [Hx Hw].
  destruct (is_space x); [discriminate|].
  rewrite IH by exact Hw. rewrite <- app_assoc. reflexivity.
Qed.

Lemma split_word (w : text) :
  w <> [] -> forallb (fun c => negb (is_space c)) w = true -> split w = [w].
Proof.
  intros Hne Hw. unfold split.
  pose proof (split_aux_word w [] Hw []) as E0. rewrite !app_nil_r in E0.
  rewrite E0. change (flush (rev w) = [w]). unfold flush.
  destruct (rev w) eqn:E.
  - apply (f_equal (@rev ascii)) in E. rewrite rev_involutive in E.
    contradiction.
  - rewrite <- E, rev_involutive. reflexivity.
Qed.

Lemma split_word_space (w : text) (c : ascii) (b : text) :
  w <> [] -> forallb (fun c => negb (is_space c)) w = true -> is_space c = true ->
  split (w ++ c :: b) = w :: split b.
Proof.
  intros Hne Hw Hc. rewrite split_app_space by exact Hc.
  rewrite split_word by assumption. reflexivity.
Qed.

Lemma split_space_cons (c : ascii) (b : text) :
  is_space c = true -> split (c :: b) = split b.
Proof. intros Hc. unfold split; simpl. rewrite Hc. reflexivity. Qed.

Lemma split_app_last_space (a' b : text) (c : ascii) :
  is_space c = true -> split ((a' ++ [c]) ++ b) = split (a' ++ [c]) ++ split b.
Proof.
  intros Hc. rewrite <- app_assoc. simpl.
  rewrite !split_app_space by exact Hc. unfold split at 3. simpl.
  rewrite app_nil_r. reflexivity.
Qed.

(** A word of [L ++ [c]] without [c] is already a word of [L]. *)
Lemma split_aux_snoc_in (c : ascii) (w : text) :
  ~ In c w ->
  forall L cur, In w (split_aux cur (L ++ [c])) -> In w (split_aux cur L).
Proof.
  intros Hw L. induction L as [|x L IH]; intros cur H; simpl in *.
  - destruct (is_space c); [rewrite app_nil_r in H; exact H|].
    destruct H as [H|[]]. exfalso. apply Hw. rewrite <- H. simpl.
    apply in_or_app. right. left. reflexivity.
  - destruct (is_space x).
    + apply in_app_or in H as [H|H]; apply in_or_app; [left; exact H|].
      right. apply IH. exact H.
    + apply IH. exact H.
Qed.

Lemma split_join (l : list text) :
  Forall (fun w => w <> [] /\ forallb (fun c => negb (is_space c)) w = true) l ->
  split (join (lit " ") l) = l.
Proof.
  induction l as [|x l IH]; intros H; [reflexivity|].
  inversion H as [|? ? [Hne Hw] Hl]; subst.
  destruct l as [|y l].
  - apply split_word; assumption.
  - change (split (x ++ SP :: join (lit " ") (y :: l)) = x :: y :: l).
    rewrite split_word_space by (assumption || reflexivity).
    rewrite IH by exact Hl. reflexivity.
Qed.

Lemma py_find_absent (c : ascii) (s : text) : ~ In c s -> py_find c s = (-1)%Z.
Proof.
  induction s as [|x s IH]; intros H; simpl; [reflexivity|].
  destruct (Ascii.eqb x c) eqn:E.
  - apply Ascii.eqb_eq in E. subst. exfalso. apply H. left. reflexivity.
  - rewrite IH by (intros H'; apply H; right; exact H'). reflexivity.
Qed.

Lemma py_find_first (c : ascii) (pre post : text) :
  ~ In c pre -> py_find c (pre ++ c :: post) = Z.of_nat (List.length pre).
Proof.
  induction pre as [|x pre IH]; intros H; simpl.
  - rewrite Ascii.eqb_refl. reflexivity.
  - destruct (Ascii.eqb x c) eqn:E.
    + apply Ascii.eqb_eq in E. subst. exfalso. apply H. left. reflexivity.
    + rewrite IH by (intros H'; apply H; right; exact H').
      destruct (Z.ltb_spec (Z.of_nat (List.length pre)) 0); lia.
Qed.

Lemma in_split_first (c : ascii) (s : text) :
  In c s -> exists pre post, s = pre ++ c :: post /\ ~ In c pre.
Proof.
  induction s as [|x s IH]; intros H; [destruct H|].
  destruct (ascii_dec x c) as [->|Hne].
  - exists [], s. split; [reflexivity|]. intros [].
  - destruct H as [H|H]; [contradiction|].
    destruct (IH H) as (pre & post & -> & Hpre).
    exists (x :: pre), post. split; [reflexivity|].
    intros [H'|H']; contradiction.
Qed.

End Text.

Section Rules.

Lemma firstn_app_length (a b : text) : firstn (List.length a) (a ++ b) = a.
Proof. induction a as [|x a IH]; simpl; [reflexivity|]. rewrite IH. reflexivity. Qed.

Lemma skipn_app_length (a b : text) : skipn (List.length a) (a ++ b) = b.
Proof. induction a as [|x a IH]; simpl; [reflexivity|]. exact IH. Qed.

Lemma not_in_app (c : ascii) (a b : text) : ~ In c a -> ~ In c b -> ~ In c (a ++ b).
Proof. intros Ha Hb H. apply in_app_or in H as [H|H]; contradiction. Qed.

(** [insert_source] on a rule whose first colon ends [pre]. *)
Lemma insert_source_split (pre post file : text) :
  ~ In COLON pre ->
  insert_source (pre ++ COLON :: post) file
  = Ok (pre ++ COLON :: SP :: file ++ SP :: post).
Proof.
  intros Hpre. unfold insert_source.
  rewrite py_find_first by exact Hpre.
  replace (Z.of_nat (List.length pre) + 1)%Z
    with (Z.of_nat (List.length (pre ++ [COLON]))) by (rewrite length_app; simpl; lia).
  destruct (Z.eqb_spec (Z.of_nat (List.length (pre ++ [COLON]))) 0) as [E|_].
  - rewrite length_app in E. simpl in E. lia.
  - rewrite Nat2Z.id.
    replace (pre ++ COLON :: post) with ((pre ++ [COLON]) ++ post)
      by (rewrite <- app_assoc; reflexivity).
    rewrite firstn_app_length, skipn_app_length.
    rewrite <- app_assoc. reflexivity.
Qed.

Lemma insert_source_no_colon (rule file : text) :
  ~ In COLON rule -> insert_source rule file = Err AssertionError.
Proof.
  intros H. unfold insert_source. rewrite py_find_absent by exact H. reflexivity.
Qed.

Lemma create_object_rule_split (run : shell) (d file pre post : text) :
  run (gcc_mm_command file) = Some (pre ++ COLON :: post) ->
  ~ In COLON pre ->
  create_object_rule run d file
  = Ok (d ++ pre ++ COLON :: SP :: file ++ SP :: post ++ object_recipe).
Proof.
  intros Hrun Hpre. unfold create_object_rule. rewrite Hrun. simpl.
  rewrite insert_source_split by exact Hpre. simpl.
  rewrite <- !app_assoc. simpl. rewrite <- !app_assoc. reflexivity.
Qed.

Lemma after_first_colon_split (a rest : text) :
  ~ In COLON a -> after_first_colon (a ++ COLON :: rest) = rest.
Proof.
  intros Ha. unfold after_first_colon. rewrite py_find_first by exact Ha.
  replace (Z.to_nat (Z.of_nat (List.length a) + 1)) with (List.length (a ++ [COLON]))
    by (rewrite length_app; simpl; lia).
  replace (a ++ COLON :: rest) with ((a ++ [COLON]) ++ rest)
    by (rewrite <- app_assoc; reflexivity).
  apply skipn_app_length.
Qed.

Lemma rule_target_split (a rest : text) :
  ~ In COLON a -> rule_target (a ++ COLON :: rest) = a.
Proof.
  intros Ha. unfold rule_target. rewrite py_find_first by exact Ha.
  rewrite Nat2Z.id. apply firstn_app_length.
Qed.

Lemma logical_line_space (y : text) : logical_line (SP :: y) = SP :: logical_line y.
Proof. reflexivity. Qed.

(** A word free of newlines passes through the line reader unchanged. *)
Lemma logical_line_word (f y : text) :
  forallb (fun c => negb (is_space c) && negb (Ascii.eqb c BSLASH)) f = true ->
  logical_line (f ++ SP :: y) = f ++ SP :: logical_line y.
Proof.
  induction f as [|c f IH]; intros Hf; simpl in *; [reflexivity|].
  apply andb_prop in Hf as [Hc Hf]. apply andb_prop in Hc as [Hc1 Hc2].
  destruct (Ascii.eqb c NL) eqn:ENL.
  { apply Ascii.eqb_eq in ENL. subst. discriminate. }
  destruct (Ascii.eqb c BSLASH); [discriminate|].
  rewrite IH by exact Hf. reflexivity.
Qed.

Lemma logical_line_plain (c : ascii) (s : text) :
  Ascii.eqb c NL = false -> Ascii.eqb c BSLASH = false ->
  logical_line (c :: s) = c :: logical_line s.
Proof. intros H1 H2. simpl. rewrite H1, H2. reflexivity. Qed.

Lemma logical_line_continue (s : text) :
  logical_line (BSLASH :: NL :: s) = SP :: logical_line s.
Proof. reflexivity. Qed.

Lemma logical_line_backslash (c : ascii) (s : text) :
  Ascii.eqb c NL = false ->
  logical_line (BSLASH :: c :: s) = BSLASH :: logical_line (c :: s).
Proof. intros H. cbn [logical_line]. rewrite H. reflexivity. Qed.

(** Appending a newline either leaves the logical line alone or completes a
    trailing backslash into a continuation. *)
Lemma logical_line_newline (post x : text) :
  logical_line (post ++ NL :: x) = logical_line post
  \/ exists L, logical_line post = L ++ [BSLASH]
         /\ logical_line (post ++ NL :: x) = L ++ SP :: logical_line x.
Proof.
  remember (List.length post) as n eqn:Hn.
  revert post Hn. induction n as [n IH] using lt_wf_ind. intros post Hn.
  destruct post as [|c p]; [left; reflexivity|].
  destruct (Ascii.eqb c NL) eqn:ENL.
  { left. simpl. rewrite ENL. reflexivity. }
  destruct (Ascii.eqb c BSLASH) eqn:EBS.
  - apply Ascii.eqb_eq in EBS. subst c. destruct p as [|c' p'].
    + right. exists []. split; reflexivity.
    + change ((BSLASH :: c' :: p') ++ NL :: x) with (BSLASH :: c' :: (p' ++ NL :: x)).
      destruct (Ascii.eqb c' NL) eqn:ENL'.
      * apply Ascii.eqb_eq in ENL'. subst c'.
        rewrite !logical_line_continue.
        destruct (IH (List.length p') ltac:(simpl in Hn; lia) p' eq_refl)
          as [H|(L & H1 & H2)].
        -- left. rewrite H. reflexivity.
        -- right. exists (SP :: L). rewrite H1, H2. split; reflexivity.
      * rewrite !logical_line_backslash by exact ENL'.
        destruct (IH (List.length (c' :: p')) ltac:(simpl in Hn; simpl; lia)
                   (c' :: p') eq_refl) as [H|(L & H1 & H2)].
        -- left. simpl app in H. rewrite H. reflexivity.
        -- right. exists (BSLASH :: L). simpl app in H2. rewrite H1, H2.
           split; reflexivity.
  - simpl app. rewrite !logical_line_plain by assumption.
    destruct (IH (List.length p) ltac:(simpl in Hn; lia) p eq_refl)
      as [H|(L & H1 & H2)].
    + left. rewrite H. reflexivity.
    + right. exists (c :: L). rewrite H1, H2. split; reflexivity.
Qed.

Lemma plain_path_spec (f : text) :
  plain_path f = true ->
  f <> []
  /\ forallb (fun c => negb (is_space c) && negb (Ascii.eqb c BSLASH)) f = true
  /\ forallb (fun c => negb (is_space c)) f = true.
Proof.
  unfold plain_path. intros H. apply andb_prop in H as [H1 H2].
  repeat split.
  - destruct f; [discriminate|]. discriminate.
  - exact H2.
  - apply forallb_forall. intros c Hc. rewrite forallb_forall in H2.
    specialize (H2 c Hc). apply andb_prop in H2 as [H2 _]. exact H2.
Qed.

(** The object rule built from a [gcc -MM] output [pre ++ ":" ++ post]:
    its target, and its prerequisites with [file] in front. *)
Lemma object_rule_shape (run : shell) (d file pre post : text) :
  run (gcc_mm_command file) = Some (pre ++ COLON :: post) ->
  ~ In COLON pre -> ~ In COLON d -> plain_path file = true ->
  exists r, create_object_rule run d file = Ok r
    /\ r = d ++ pre ++ COLON :: SP :: file ++ SP :: post ++ object_recipe
    /\ rule_target r = d ++ pre
    /\ rule_prerequisites r = file :: split (logical_line (post ++ object_recipe)).
Proof.
  intros Hrun Hpre Hd Hf.
  destruct (plain_path_spec file Hf) as (Hne & Hf1 & Hf2).
  eexists. split; [apply create_object_rule_split; eassumption|].
  split; [reflexivity|].
  assert (Hdp : ~ In COLON (d ++ pre)) by (apply not_in_app; assumption).
  replace (d ++ pre ++ COLON :: SP :: file ++ SP :: post ++ object_recipe)
    with ((d ++ pre) ++ COLON :: (SP :: file ++ SP :: post ++ object_recipe))
    by (rewrite <- app_assoc; reflexivity).
  split; [apply rule_target_split; exact Hdp|].
  unfold rule_prerequisites. rewrite after_first_colon_split by exact Hdp.
  rewrite logical_line_space, logical_line_word by exact Hf1.
  rewrite split_space_cons by reflexivity.
  rewrite split_word_space by (assumption || reflexivity).
  reflexivity.
Qed.

(** A prerequisite word of [post] is still one once the recipe follows. *)
Lemma prerequisite_kept (file post : text) :
  forallb (fun c => negb (is_space c) && negb (Ascii.eqb c BSLASH)) file = true ->
  In file (split (logical_line post)) ->
  In file (split (logical_line (post ++ object_recipe))).
Proof.
  intros Hf Hin.
  change object_recipe with (NL :: (TAB :: lit "$(CC) $(CFLAGS) -c -o $@ $<" ++ [NL; NL])).
  destruct (logical_line_newline post (TAB :: lit "$(CC) $(CFLAGS) -c -o $@ $<" ++ [NL; NL]))
    as [H|(L & H1 & H2)].
  - rewrite H. exact Hin.
  - rewrite H2, split_app_space by reflexivity. apply in_or_app. left.
    rewrite H1 in Hin. apply (split_aux_snoc_in BSLASH file); [|exact Hin].
    intros Hb. rewrite forallb_forall in Hf. specialize (Hf BSLASH Hb).
    rewrite Ascii.eqb_refl in Hf. rewrite andb_false_r in Hf. discriminate.
Qed.

Lemma profile_dirs_no_colon (d : text) : In d profile_dirs -> ~ In COLON d.
Proof.
  intros [<-|[<-|[]]]; cbv; intros H;
    repeat (destruct H as [H|H]; [discriminate H|]); exact H.
Qed.

Lemma default_files_plain (f : text) : In f (files default_config) -> plain_path f = true.
Proof.
  assert (H : forallb plain_path (files default_config) = true) by (vm_compute; reflexivity).
  rewrite forallb_forall in H. exact (H f).
Qed.

End Rules.

(** ** The build loop and the link-prerequisite scan *)

Section Build.

Definition obj_of_word (w : text) : list text :=
  if ends_obj w then [drop_last w] else [].

Lemma fold_scan_word (l : list text) (acc : list text) :
  fold_left scan_word l acc = acc ++ flat_map obj_of_word l.
Proof.
  revert acc. induction l as [|w l IH]; intros acc; simpl.
  - rewrite app_nil_r. reflexivity.
  - rewrite IH. unfold scan_word, obj_of_word, ends_obj.
    destruct (list_eq_dec ascii_dec (last3 w) pattern); simpl;
      rewrite <- ?app_assoc; reflexivity.
Qed.

Lemma linker_objects_flat (script : text) :
  linker_objects script = flat_map obj_of_word (split script).
Proof. unfold linker_objects. rewrite fold_scan_word. reflexivity. Qed.

Lemma no_obj_token_flat (s : text) :
  no_obj_token s = true -> flat_map obj_of_word (split s) = [].
Proof.
  unfold no_obj_token. induction (split s) as [|w l IH]; intros H; [reflexivity|].
  simpl in H. apply andb_prop in H as [H1 H2]. simpl.
  unfold obj_of_word. destruct (ends_obj w); [discriminate|]. apply IH. exact H2.
Qed.

Definition ends_nl (r : text) : Prop := exists r', r = r' ++ [NL].

Lemma ends_nl_app (a b : text) : ends_nl b -> ends_nl (a ++ b).
Proof. intros [b' ->]. exists (a ++ b'). apply app_assoc. Qed.

Lemma ends_nl_cons (c : ascii) (b : text) : ends_nl b -> ends_nl (c :: b).
Proof. intros [b' ->]. exists (c :: b'). reflexivity. Qed.

Lemma ends_nl_object_recipe : ends_nl object_recipe.
Proof. exists (NL :: TAB :: lit "$(CC) $(CFLAGS) -c -o $@ $<" ++ [NL]). reflexivity. Qed.

Lemma split_concat (rules : list text) :
  Forall ends_nl rules -> split (List.concat rules) = flat_map split rules.
Proof.
  induction 1 as [|r rules [r' ->] _ IH]; [reflexivity|].
  simpl. rewrite split_app_last_space by reflexivity. rewrite IH. reflexivity.
Qed.

Lemma build_loop_ok (run : shell) (d : text) (fs : list text) :
  (forall f, In f fs -> exists r, create_object_rule run d f = Ok r) ->
  exists rules, Forall2 (fun f r => create_object_rule run d f = Ok r) fs rules
    /\ forall script, build_loop run d fs script = Ok (script ++ List.concat rules).
Proof.
  induction fs as [|f fs IH]; intros H.
  - exists []. split; [constructor|]. intros script. rewrite app_nil_r. reflexivity.
  - destruct (H f (or_introl eq_refl)) as [r Hr].
    destruct IH as (rules & H1 & H2); [intros g Hg; apply H; right; exact Hg|].
    exists (r :: rules). split; [constructor; assumption|].
    intros script. simpl. rewrite Hr. simpl. rewrite H2, <- app_assoc. reflexivity.
Qed.

Lemma build_loop_err (run : shell) (d f : text) (e : exn) (fs : list text) :
  In f fs -> create_object_rule run d f = Err e ->
  forall script, exists e', build_loop run d fs script = Err e'.
Proof.
  induction fs as [|g fs IH]; intros Hin He script; [destruct Hin|].
  simpl. destruct (create_object_rule run d g) as [r|e'] eqn:Eg; simpl.
  - destruct Hin as [->|Hin]; [congruence|]. apply IH; assumption.
  - exists e'. reflexivity.
Qed.

Lemma create_object_rule_ext (run1 run2 : shell) (d f : text) :
  run1 (gcc_mm_command f) = run2 (gcc_mm_command f) ->
  create_object_rule run1 d f = create_object_rule run2 d f.
Proof. intros H. unfold create_object_rule. rewrite H. reflexivity. Qed.

Lemma build_loop_ext (run1 run2 : shell) (d : text) (fs : list text) :
  (forall f, In f fs -> run1 (gcc_mm_command f) = run2 (gcc_mm_command f)) ->
  forall script, build_loop run1 d fs script = build_loop run2 d fs script.
Proof.
  induction fs as [|f fs IH]; intros H script; [reflexivity|]. simpl.
  rewrite (create_object_rule_ext run1 run2 d f) by (apply H; left; reflexivity).
  destruct (create_object_rule run2 d f); simpl; [|reflexivity].
  apply IH. intros g Hg. apply H. right. exact Hg.
Qed.

(** What the link scan finds in one object rule of the expected form. *)
Definition link_ready (d r : text) : Prop :=
  ends_nl r
  /\ flat_map obj_of_word (split r) = [rule_target r]
  /\ rule_target r <> []
  /\ forallb (fun c => negb (is_space c)) (rule_target r) = true
  /\ exists t, rule_target r = d ++ t.

Lemma object_recipe_split :
  object_recipe = NL :: (TAB :: lit "$(CC) $(CFLAGS) -c -o $@ $<" ++ [NL; NL]).
Proof. reflexivity. Qed.

Lemma word_char_nospace (s : text) :
  forallb word_char s = true -> forallb (fun c => negb (is_space c)) s = true.
Proof.
  intros H. apply forallb_forall. intros c Hc. rewrite forallb_forall in H.
  specialize (H c Hc). unfold word_char in H. apply andb_prop in H as [H _]. exact H.
Qed.

Lemma word_char_nocolon (s : text) : forallb word_char s = true -> ~ In COLON s.
Proof.
  intros H Hc. rewrite forallb_forall in H. specialize (H COLON Hc).
  unfold word_char in H. rewrite Ascii.eqb_refl, andb_false_r in H. discriminate.
Qed.

Lemma profile_dirs_nospace (d : text) :
  In d profile_dirs -> forallb (fun c => negb (is_space c)) d = true.
Proof. intros [<-|[<-|[]]]; reflexivity. Qed.

Lemma last3_obj (a : text) : last3 (a ++ lit ".o:") = pattern.
Proof.
  unfold last3. rewrite length_app. simpl.
  replace (List.length a + 3 - 3) with (List.length a) by lia.
  apply skipn_app_length.
Qed.

Lemma drop_last_obj (a : text) : drop_last (a ++ lit ".o:") = a ++ lit ".o".
Proof.
  unfold drop_last.
  replace (a ++ lit ".o:") with ((a ++ lit ".o") ++ [COLON]) by (rewrite <- app_assoc; reflexivity).
  rewrite (length_app (a ++ lit ".o") [COLON]). simpl (List.length [COLON]).
  replace (List.length (a ++ lit ".o") + 1 - 1) with (List.length (a ++ lit ".o")) by lia.
  apply firstn_app_length.
Qed.

Lemma object_rule_link_ready (run : shell) (d f out r : text) :
  In d profile_dirs -> no_obj_token f = true ->
  run (gcc_mm_command f) = Some out -> one_rule_form out ->
  create_object_rule run d f = Ok r -> link_ready d r.
Proof.
  intros Hd Hf Hrun (stem & rest & Hout & Hstem & Hrest) Hr.
  assert (Hpre : ~ In COLON (stem ++ lit ".o")).
  { apply not_in_app; [apply word_char_nocolon; exact Hstem|].
    cbv. intros H; repeat (destruct H as [H|H]; [discriminate H|]); exact H. }
  assert (Hrun' : run (gcc_mm_command f) = Some ((stem ++ lit ".o") ++ COLON :: rest))
    by (rewrite Hrun, Hout, <- app_assoc; reflexivity).
  rewrite (create_object_rule_split run d f (stem ++ lit ".o") rest Hrun' Hpre) in Hr.
  assert (Er : r = d ++ (stem ++ lit ".o") ++ COLON :: SP :: f ++ SP :: rest ++ object_recipe)
    by congruence.
  subst r.
  assert (Hdc := profile_dirs_no_colon d Hd).
  assert (Htgt : rule_target (d ++ (stem ++ lit ".o") ++ COLON :: SP :: f ++ SP :: rest ++ object_recipe)
                 = d ++ stem ++ lit ".o").
  { rewrite app_assoc. apply rule_target_split.
    apply not_in_app; assumption. }
  unfold link_ready. rewrite Htgt.
  assert (Hns : forallb (fun c => negb (is_space c)) (d ++ stem ++ lit ".o") = true).
  { rewrite !forallb_app, profile_dirs_nospace, word_char_nospace by assumption. reflexivity. }
  repeat split.
  - rewrite <- app_assoc. simpl.
    repeat (first [exact ends_nl_object_recipe | apply ends_nl_app | apply ends_nl_cons]).
  - replace (d ++ (stem ++ lit ".o") ++ COLON :: SP :: f ++ SP :: rest ++ object_recipe)
      with ((d ++ stem ++ lit ".o:") ++ SP :: f ++ SP :: rest ++ object_recipe)
      by (rewrite <- !app_assoc; reflexivity).
    rewrite split_word_space.
    + rewrite split_app_space by reflexivity.
      rewrite object_recipe_split, split_app_space by reflexivity.
      simpl flat_map. rewrite !flat_map_app, !no_obj_token_flat by (assumption || reflexivity).
      change ["."%char; "o"%char; ":"%char] with (lit ".o:"). rewrite !app_nil_r.
      unfold obj_of_word, ends_obj. rewrite app_assoc, last3_obj.
      destruct (list_eq_dec ascii_dec pattern pattern) as [_|Hn]; [|contradiction].
      rewrite drop_last_obj, <- app_assoc. reflexivity.
    + destruct d; [destruct Hd as [Hd|[Hd|[]]]; discriminate Hd|]. discriminate.
    + rewrite !forallb_app, profile_dirs_nospace, word_char_nospace by assumption. reflexivity.
    + reflexivity.
  - destruct d; [destruct Hd as [Hd|[Hd|[]]]; discriminate Hd|]. discriminate.
  - exact Hns.
  - exists (stem ++ lit ".o"). reflexivity.
Qed.

Lemma link_scan_rules (d : text) (rules : list text) :
  Forall (link_ready d) rules ->
  flat_map obj_of_word (flat_map split rules) = map rule_target rules.
Proof.
  induction 1 as [|r rules (_ & Hr & _) _ IH]; [reflexivity|].
  simpl. rewrite flat_map_app, Hr, IH. reflexivity.
Qed.

Lemma header_link_free (d : text) :
  In d profile_dirs ->
  ends_nl (build_header d) /\ flat_map obj_of_word (split (build_header d)) = [].
Proof.
  intros [<-|[<-|[]]].
  - split; [exists (removelast (build_header debug_dir)) | ]; vm_compute; reflexivity.
  - split; [exists (removelast (build_header release_dir)) | ]; vm_compute; reflexivity.
Qed.

Lemma forall2_forall {A B} (R : A -> B -> Prop) (P : B -> Prop) (l1 : list A) (l2 : list B) :
  Forall2 R l1 l2 -> (forall a b, In a l1 -> R a b -> P b) -> Forall P l2.
Proof.
  induction 1 as [|a b l1 l2 Hab _ IH]; intros H; constructor.
  - apply (H a b); [left; reflexivity | exact Hab].
  - apply IH. intros a' b' Ha'. apply H. right. exact Ha'.
Qed.

(** A sample output of [sample_shell] is of the one-rule form when its stem
    and path are well behaved. *)
Definition sample_stem (f : text) : text :=
  firstn (List.length (base_name [] f) - 2) (base_name [] f).

Lemma sample_shell_one_rule_form (f : text) :
  forallb word_char (sample_stem f) && no_obj_token (SP :: f ++ [NL]) = true ->
  exists out, sample_shell (gcc_mm_command f) = Some out /\ one_rule_form out.
Proof.
  intros H. apply andb_prop in H as [H1 H2]. eexists. split; [reflexivity|].
  exists (sample_stem f), (SP :: f ++ [NL]). repeat split; assumption.
Qed.

End Build.

(** ** Shells and scripts used by the concrete statements *)

(** A shell whose [gcc -MM] prints a rule without any [.o] target. *)
Definition noobj_shell (command : text) : option text :=
  Some (lit "main: main.c" ++ [NL]).

(** A shell on which [gcc -MM ./src/parser.c] exits with a nonzero status. *)
Definition failing_shell (command : text) : option text :=
  if list_eq_dec ascii_dec command (gcc_mm_command (lit "./src/parser.c")) then None
  else sample_shell command.

(** A shell that differs from [sample_shell] only on a file that is not
    configured. *)
Definition other_shell (command : text) : option text :=
  if list_eq_dec ascii_dec command (gcc_mm_command (lit "./src/unused.c")) then None
  else sample_shell command.

Definition noobj_debug_script : text :=
  match build_loop noobj_shell debug_dir (files default_config) (build_header debug_dir) with
  | Ok s => s
  | Err _ => []
  end.

Lemma library_flags_fold (libs acc : list text) :
  fold_left (fun flags lib => flags ++ [lit "-l" ++ lib]) libs acc
  = acc ++ map (fun name => lit "-l" ++ name) libs.
Proof.
  revert acc. induction libs as [|l libs IH]; intros acc; simpl.
  - rewrite app_nil_r. reflexivity.
  - rewrite IH, <- app_assoc. reflexivity.
Qed.

Ltac in_default_files :=
  cbv [files default_config map];
  repeat (first [left; reflexivity | right]).

(** ** kmap.py: the post-processing filter of the gperf keyword table *)

(** [p] is a prefix of [s]. *)
Fixpoint is_prefix (p s : text) : bool :=
  match p, s with
  | [], _ => true
  | _ :: _, [] => false
  | x :: p', y :: s' => Ascii.eqb x y && is_prefix p' s'
  end.

(** [s.replace(old, new)] for a non-empty [old]: scan left to right, replace
    each occurrence and resume after it; [k] counts the characters of the
    last occurrence still to skip. *)
Fixpoint replace_from (old new : text) (k : nat) (s : text) : text :=
  match s with
  | [] => []
  | c :: s' =>
      match k with
      | S k' => replace_from old new k' s'
      | O => if is_prefix old s then new ++ replace_from old new (List.length old - 1) s'
             else c :: replace_from old new 0 s'
      end
  end.

(** [s.replace(old, new)]; an empty [old] matches before every character
    and at the end. *)
Definition py_replace (old new s : text) : text :=
  match old with
  | [] => new ++ flat_map (fun c => c :: new) s
  | _ => replace_from old new 0 s
  end.

Definition DNL : text := [NL; NL].

Definition gperf_command : text :=
  lit "gperf -t -C --null-strings --hash-function-name=kmap_hash keywords.txt".

(** [exec_gperf] *)
Definition exec_gperf (run : shell) : result text :=
  match run gperf_command with
  | None => Err (CalledProcessError gperf_command)
  | Some stdout => Ok stdout
  end.

Definition str_directive : text := lit "#include <string.h>".
Definition api_directive : text := lit "#include " ++ quoted (lit "kmap.h").

(** [add_include] *)
Definition add_include (t : text) : text := join DNL [str_directive; api_directive; t].

Definition pragma_push : text := lit "#pragma GCC diagnostic push".
Definition pragma_flag : text := lit "#pragma GCC diagnostic ignored " ++ quoted (lit "-Wconversion").
Definition pragma_pop : text := lit "#pragma GCC diagnostic pop".

(** [add_diagnostic] *)
Definition add_diagnostic (t : text) : text := join DNL [pragma_push; pragma_flag; t; pragma_pop].

Definition kv_pair_struct : text := lit "struct kv_pair { char *name; token_type typ; };".
Definition kv_pair_note : text := lit "//kv_pair defined in kmap.h".

(** [remove_struct] *)
Definition remove_struct (t : text) : text := py_replace kv_pair_struct kv_pair_note t.

Definition kmap_pipeline : list (text -> text) := [add_include; add_diagnostic; remove_struct].

(** The [__main__] block of kmap.py: standard output and exit status. *)
Definition kmap_main (run : shell) : text * Z :=
  match exec_gperf run with
  | Err _ => ([], 1%Z)
  | Ok t => (fold_left (fun t func => func t) kmap_pipeline t ++ [NL], 0%Z)
  end.

(** A gperf that prints a table still holding the struct definition. *)
Definition sample_gperf (command : text) : option text :=
  Some (lit "/* C code produced by gperf */" ++ [NL] ++ kv_pair_struct ++ [NL]
        ++ lit "static const struct kv_pair wordlist[] = {0};" ++ [NL]).

(** ** test_scanner.py: the token-type extraction of the scanner test *)

(** [s.split(sep)] with a one-character separator: every separator ends a
    piece, empty pieces included. [cur] is the current piece, reversed. *)
Fixpoint split_on_aux (sep : ascii) (cur : text) (s : text) : list text :=
  match s with
  | [] => [rev cur]
  | c :: s' => if Ascii.eqb c sep then rev cur :: split_on_aux sep [] s'
               else split_on_aux sep (c :: cur) s'
  end.

Definition split_on (sep : ascii) (s : text) : list text := split_on_aux sep [] s.

(** [s.find(pat)] for a substring [pat]. *)
Fixpoint find_sub (pat s : text) : Z :=
  if is_prefix pat s then 0%Z
  else match s with
       | [] => (-1)%Z
       | _ :: s' => let i := find_sub pat s' in if (i <? 0)%Z then (-1)%Z else (i + 1)%Z
       end.

Definition has_token (line : text) : bool := negb (Z.eqb (find_sub (lit "TOKEN") line) (-1)).

(** [[^:]+:] from a given position: the class cannot cross a colon, so the
    greedy run stops at the first colon and must be non-empty. *)
Fixpoint field (s : text) : option text :=
  match s with
  | [] => None
  | c :: s' => if Ascii.eqb c COLON then Some [] else option_map (cons c) (field s')
  end.

Definition colon_field (s : text) : option text :=
  match field s with
  | Some (_ :: _) as r => r
  | _ => None
  end.

(** [re.search(r":[^:]+:", s)]: the matched text of the leftmost match. *)
Fixpoint search_field (s : text) : option text :=
  match s with
  | [] => None
  | c :: s' =>
      if Ascii.eqb c COLON then
        match colon_field s' with
        | Some w => Some (COLON :: w ++ [COLON])
        | None => search_field s'
        end
      else search_field s'
  end.

Fixpoint lstrip (s : text) : text :=
  match s with
  | [] => []
  | c :: s' => if is_space c then lstrip s' else s
  end.

(** [s.strip()] *)
Definition strip (s : text) : text := rev (lstrip (rev (lstrip s))).

(** The body of the loop of [isolate]. *)
Definition isolate_step (types : list text) (i : text) : list text :=
  match search_field i with
  | Some m => types ++ [strip (drop_last (skipn 1 m))]
  | None => types
  end.

(** [TestScanner.isolate] *)
Definition isolate (t : text) : list text :=
  let lines := split_on NL t in
  let tokens := filter has_token lines in
  fold_left isolate_step tokens [].

(** What one token line contributes to [isolate]. *)
Definition line_types (i : text) : list text :=
  match search_field i with
  | Some m => [strip (drop_last (skipn 1 m))]
  | None => []
  end.

Ltac find_in := cbv [In]; repeat (first [left; reflexivity | right]).

(** * Claims *)

(** C8: [insert_source] fails with an [AssertionError] exactly when the
    [gcc -MM] output has no colon, and returns normally whenever it has one. *)
Theorem insert_source_asserts_iff_no_colon (out file : text) :
  (insert_source out file = Err AssertionError <-> ~ In COLON out)
  /\ ((In COLON out -> exists s, insert_source out file = Ok s)
     /\ (~ In COLON out -> insert_source out file = Err AssertionError)).
Proof.
  assert (Hok : In COLON out -> exists s, insert_source out file = Ok s).
  { intros H. destruct (in_split_first COLON out H) as (pre & post & -> & Hpre).
    rewrite insert_source_split by exact Hpre. eexists. reflexivity. }
  split; [split|split; [exact Hok | apply insert_source_no_colon]].
  - intros Herr Hin. destruct (Hok Hin) as [s Hs]. congruence.
  - apply insert_source_no_colon.
Qed.

(** C9: on an output with a colon, [insert_source] keeps everything up to and
    including the first colon and everything after it, and splices in one
    space, the source path and one space right after that colon. *)
Theorem insert_source_frame (out file : text) :
  In COLON out ->
  exists pre post,
    out = pre ++ COLON :: post /\ ~ In COLON pre
    /\ insert_source out file = Ok (pre ++ [COLON] ++ lit " " ++ file ++ lit " " ++ post).
Proof.
  intros H. destruct (in_split_first COLON out H) as (pre & post & -> & Hpre).
  exists pre, post. split; [reflexivity|]. split; [exact Hpre|].
  rewrite insert_source_split by exact Hpre. reflexivity.
Qed.

Lemma insert_source_frame_witness :
  exists pre post,
    lit "main.o: ./src/main.h" = pre ++ COLON :: post /\ ~ In COLON pre
    /\ insert_source (lit "main.o: ./src/main.h") (lit "./src/main.c")
       = Ok (pre ++ [COLON] ++ lit " " ++ lit "./src/main.c" ++ lit " " ++ post).
Proof. apply insert_source_frame. find_in. Defined.

(** C3: for every configured source file and both profile directories, when
    the [gcc -MM] output has a colon, the object rule lists the source file
    among its prerequisites (as the first one). *)
Theorem object_rule_has_source (run : shell) (d f out : text) :
  In d profile_dirs -> In f (files default_config) ->
  run (gcc_mm_command f) = Some out -> In COLON out ->
  exists r, create_object_rule run d f = Ok r /\ In f (rule_prerequisites r).
Proof.
  intros Hd Hf Hrun Hc.
  destruct (in_split_first COLON out Hc) as (pre & post & -> & Hpre).
  destruct (object_rule_shape run d f pre post Hrun Hpre
              (profile_dirs_no_colon d Hd) (default_files_plain f Hf))
    as (r & Hr & _ & _ & Hp).
  exists r. split; [exact Hr|]. rewrite Hp. left. reflexivity.
Qed.

Lemma object_rule_has_source_witness :
  exists r, create_object_rule sample_shell debug_dir (lit "./src/main.c") = Ok r
    /\ In (lit "./src/main.c") (rule_prerequisites r).
Proof.
  apply (object_rule_has_source sample_shell debug_dir (lit "./src/main.c")
           (lit "main.o: ./src/main.c" ++ [NL])).
  - left. reflexivity.
  - left. reflexivity.
  - reflexivity.
  - find_in.
Defined.

(** C10: the source path is always the first prerequisite of the object rule
    and is not deduplicated: when the [gcc -MM] output already lists it, the
    object rule lists it at least twice. *)
Theorem object_rule_source_not_deduplicated (run : shell) (d f out : text) :
  In d profile_dirs -> In f (files default_config) ->
  run (gcc_mm_command f) = Some out -> In COLON out ->
  exists r, create_object_rule run d f = Ok r
    /\ (exists rest, rule_prerequisites r = f :: rest)
    /\ (In f (rule_prerequisites out) ->
        2 <= count_occ (list_eq_dec ascii_dec) (rule_prerequisites r) f).
Proof.
  intros Hd Hf Hrun Hc.
  destruct (in_split_first COLON out Hc) as (pre & post & -> & Hpre).
  pose proof (default_files_plain f Hf) as Hplain.
  destruct (object_rule_shape run d f pre post Hrun Hpre
              (profile_dirs_no_colon d Hd) Hplain)
    as (r & Hr & _ & _ & Hp).
  exists r. split; [exact Hr|]. split; [eexists; exact Hp|].
  intros Hin. unfold rule_prerequisites in Hin.
  rewrite after_first_colon_split in Hin by exact Hpre.
  destruct (plain_path_spec f Hplain) as (_ & Hf1 & _).
  pose proof (prerequisite_kept f post Hf1 Hin) as Hk.
  rewrite Hp. simpl. destruct (list_eq_dec ascii_dec f f) as [_|Hne]; [|contradiction].
  apply (count_occ_In (list_eq_dec ascii_dec)) in Hk. lia.
Qed.

Lemma object_rule_source_not_deduplicated_witness :
  exists r, create_object_rule sample_shell release_dir (lit "./src/main.c") = Ok r
    /\ (exists rest, rule_prerequisites r = lit "./src/main.c" :: rest)
    /\ (In (lit "./src/main.c") (rule_prerequisites (lit "main.o: ./src/main.c" ++ [NL])) ->
        2 <= count_occ (list_eq_dec ascii_dec) (rule_prerequisites r) (lit "./src/main.c")).
Proof.
  apply (object_rule_source_not_deduplicated sample_shell release_dir (lit "./src/main.c")).
  - right. left. reflexivity.
  - left. reflexivity.
  - reflexivity.
  - find_in.
Defined.

(** C4: for either profile, when every configured file has a [gcc -MM]
    output of the one-rule form, the words of the link rule's prerequisite
    list are exactly the targets of that profile's object rules, in order:
    none missing, none added, each under the profile's own directory. *)
Theorem link_prerequisites_are_object_targets (cfg : config) (run : shell) (d : text) :
  In d profile_dirs ->
  Forall (fun f => no_obj_token f = true) (files cfg) ->
  (forall f, In f (files cfg) ->
     exists out, run (gcc_mm_command f) = Some out /\ one_rule_form out) ->
  exists rules,
    Forall2 (fun f r => create_object_rule run d f = Ok r) (files cfg) rules
    /\ build cfg run d
       = Ok (build_header d ++ List.concat rules
             ++ create_exe_rule (libraries cfg) d (build_header d ++ List.concat rules))
    /\ split (get_linker_prerequisites (build_header d ++ List.concat rules))
       = map rule_target rules
    /\ Forall (fun p => exists t, p = d ++ t) (map rule_target rules).
Proof.
  intros Hd Hfiles Hrun.
  destruct (build_loop_ok run d (files cfg)) as (rules & Hrules & Hloop).
  { intros f Hf. destruct (Hrun f Hf) as (out & Hout & (stem & rest & Heq & Hstem & _)).
    subst out. rewrite Forall_forall in Hfiles.
    eexists. apply create_object_rule_split with (pre := stem ++ lit ".o") (post := rest).
    - rewrite Hout, <- app_assoc. reflexivity.
    - apply not_in_app; [apply word_char_nocolon; exact Hstem|].
      cbv. intros H; repeat (destruct H as [H|H]; [discriminate H|]); exact H. }
  assert (Hready : Forall (link_ready d) rules).
  { apply (forall2_forall _ _ _ _ Hrules). intros f r Hf Hr.
    destruct (Hrun f Hf) as (out & Hout & Hform).
    rewrite Forall_forall in Hfiles.
    exact (object_rule_link_ready run d f out r Hd (Hfiles f Hf) Hout Hform Hr). }
  destruct (header_link_free d Hd) as [[h' Hh] Hhfree].
  exists rules. split; [exact Hrules|]. split.
  { unfold build. rewrite Hloop. simpl. rewrite <- app_assoc. reflexivity. }
  assert (Hends : Forall ends_nl rules)
    by (eapply Forall_impl; [|exact Hready]; intros r (H & _); exact H).
  assert (Hobj : linker_objects (build_header d ++ List.concat rules) = map rule_target rules).
  { rewrite linker_objects_flat, Hh, split_app_last_space by reflexivity.
    rewrite <- Hh, flat_map_app, Hhfree, split_concat by exact Hends.
    apply (link_scan_rules d). exact Hready. }
  split.
  - unfold get_linker_prerequisites. rewrite Hobj. apply split_join.
    apply Forall_map. eapply Forall_impl; [|exact Hready].
    intros r (_ & _ & H1 & H2 & _). split; assumption.
  - apply Forall_map. eapply Forall_impl; [|exact Hready].
    intros r (_ & _ & _ & _ & H). exact H.
Qed.

Lemma link_prerequisites_are_object_targets_witness :
  exists rules,
    Forall2 (fun f r => create_object_rule sample_shell debug_dir f = Ok r)
      (files default_config) rules
    /\ build default_config sample_shell debug_dir
       = Ok (build_header debug_dir ++ List.concat rules
             ++ create_exe_rule (libraries default_config) debug_dir
                  (build_header debug_dir ++ List.concat rules))
    /\ split (get_linker_prerequisites (build_header debug_dir ++ List.concat rules))
       = map rule_target rules
    /\ Forall (fun p => exists t, p = debug_dir ++ t) (map rule_target rules).
Proof.
  apply link_prerequisites_are_object_targets.
  - left. reflexivity.
  - apply Forall_forall. apply forallb_forall with (f := no_obj_token).
    vm_compute. reflexivity.
  - intros f Hf. apply sample_shell_one_rule_form. revert f Hf.
    apply forallb_forall. vm_compute. reflexivity.
Defined.

(** C7: library resolution maps each name to [-l] followed by the name, in
    list order and keeping duplicates, and the link recipe puts these flags
    after [$^], the list of all object prerequisites. *)
Theorem library_flags_after_objects (libs : list text) (d script : text) :
  library_flags libs = map (fun name => lit "-l" ++ name) libs
  /\ create_exe_rule libs d script
     = d ++ executable_name ++ lit ": " ++ get_linker_prerequisites script
       ++ [NL; TAB] ++ lit "$(CC) -o $@ $^ "
       ++ join (lit " ") (map (fun name => lit "-l" ++ name) libs) ++ [NL; NL].
Proof.
  assert (H : library_flags libs = map (fun name => lit "-l" ++ name) libs)
    by (unfold library_flags; rewrite library_flags_fold; reflexivity).
  split; [exact H|].
  unfold create_exe_rule, exe_recipe, get_libraries. rewrite H, <- !app_assoc. reflexivity.
Qed.

(** C5: when [gcc -MM] fails on any configured file, the run writes nothing
    to standard output and exits with status 1. *)
Theorem scan_failure_emits_nothing (cfg : config) (run : shell) (f : text) :
  In f (files cfg) -> run (gcc_mm_command f) = None ->
  main cfg run = ([], 1%Z).
Proof.
  intros Hf Hrun.
  assert (He : create_object_rule run debug_dir f = Err (CalledProcessError (gcc_mm_command f)))
    by (unfold create_object_rule; rewrite Hrun; reflexivity).
  destruct (build_loop_err run debug_dir f _ (files cfg) Hf He (build_header debug_dir))
    as [e' He'].
  unfold main, create_makefile, build. rewrite He'. reflexivity.
Qed.

Lemma scan_failure_emits_nothing_witness :
  main default_config failing_shell = ([], 1%Z).
Proof.
  apply (scan_failure_emits_nothing default_config failing_shell (lit "./src/parser.c")).
  - in_default_files.
  - vm_compute. reflexivity.
Defined.

(** C6: the generated text depends only on the configuration and on the
    [gcc -MM] outputs of the configured files: two runs that see the same
    outputs print the same script and exit with the same status. *)
Theorem makefile_deterministic (cfg : config) (run1 run2 : shell) :
  (forall f, In f (files cfg) -> run1 (gcc_mm_command f) = run2 (gcc_mm_command f)) ->
  main cfg run1 = main cfg run2.
Proof.
  intros H. unfold main, create_makefile, build.
  rewrite !(build_loop_ext run1 run2 _ (files cfg) H). reflexivity.
Qed.

Lemma makefile_deterministic_witness :
  main default_config sample_shell = main default_config other_shell.
Proof.
  apply makefile_deterministic. intros f Hf.
  cbv [files default_config map] in Hf.
  repeat (destruct Hf as [<-|Hf]; [vm_compute; reflexivity|]). destruct Hf.
Defined.

(** C1 (as the code has it): [build] on a directory that is neither
    profile directory raises nothing; the [ValueError] is built and
    discarded, and a script with object and link rules for that directory
    is returned. *)
Theorem build_unknown_directory_no_error :
  build_header (lit "./install/") = []
  /\ exists s, build default_config sample_shell (lit "./install/") = Ok s.
Proof.
  split; [reflexivity|].
  exists (match build default_config sample_shell (lit "./install/") with
          | Ok s => s | Err _ => [] end).
  vm_compute. reflexivity.
Qed.

(** C2, as stated, fails: the scan of a non-empty file list can find no
    object path, and the run still succeeds. *)
Lemma empty_link_scan_counterexample :
  files default_config <> []
  /\ build_loop noobj_shell debug_dir (files default_config) (build_header debug_dir)
     = Ok noobj_debug_script
  /\ linker_objects noobj_debug_script = []
  /\ exists m, create_makefile default_config noobj_shell = Ok m.
Proof.
  split; [discriminate|]. split; [vm_compute; reflexivity|].
  split; [vm_compute; reflexivity|].
  exists (match create_makefile default_config noobj_shell with Ok m => m | Err _ => [] end).
  vm_compute. reflexivity.
Qed.

(** C2 (amended): when the scan of a profile's object rules finds no object
    path, [build] raises nothing and emits the link rule with an empty
    prerequisite list. *)
Theorem empty_link_scan_no_error (cfg : config) (run : shell) (d script : text) :
  build_loop run d (files cfg) (build_header d) = Ok script ->
  linker_objects script = [] ->
  build cfg run d
  = Ok (script ++ d ++ executable_name ++ lit ": " ++ exe_recipe (libraries cfg)).
Proof.
  intros Hloop Hobj. unfold build. rewrite Hloop. simpl.
  unfold create_exe_rule, get_linker_prerequisites. rewrite Hobj. simpl join.
  rewrite <- !app_assoc. reflexivity.
Qed.

Lemma empty_link_scan_no_error_witness :
  build default_config noobj_shell debug_dir
  = Ok (noobj_debug_script ++ debug_dir ++ executable_name ++ lit ": "
        ++ exe_recipe (libraries default_config)).
Proof.
  apply empty_link_scan_no_error; vm_compute; reflexivity.
Defined.

(** * Further properties of [build.py] *)

Section BuildExtra.

Lemma last3_pattern_split (w : text) :
  last3 w = pattern -> w = firstn (List.length w - 3) w ++ lit ".o:".
Proof.
  intros H. unfold last3 in H. unfold pattern in H. rewrite <- H.
  symmetry. apply firstn_skipn.
Qed.

Lemma build_loop_err_iff (run : shell) (d : text) (fs : list text) (script : text) (e : exn) :
  build_loop run d fs script = Err e
  <-> exists pre f post, fs = pre ++ f :: post
        /\ (forall g, In g pre -> exists r, create_object_rule run d g = Ok r)
        /\ create_object_rule run d f = Err e.
Proof.
  revert script. induction fs as [|g fs IH]; intros script; split.
  - discriminate.
  - intros (pre & f & post & Hfs & _). destruct pre; discriminate.
  - simpl. destruct (create_object_rule run d g) as [r|e'] eqn:Eg; simpl.
    + intros H. apply IH in H as (pre & f & post & -> & Hpre & Hf).
      exists (g :: pre), f, post. split; [reflexivity|]. split; [|exact Hf].
      intros h [<-|Hh]; [exists r; exact Eg | apply Hpre; exact Hh].
    + intros H. injection H as <-. exists [], g, fs. split; [reflexivity|].
      split; [intros h []|exact Eg].
  - intros (pre & f & post & Hfs & Hpre & Hf). simpl.
    destruct pre as [|h pre]; injection Hfs as -> ->.
    + rewrite Hf. reflexivity.
    + destruct (Hpre h (or_introl eq_refl)) as [r Hr]. rewrite Hr. simpl.
      apply IH. exists pre, f, post. split; [reflexivity|]. split; [|exact Hf].
      intros h' Hh'. apply Hpre. right. exact Hh'.
Qed.

(** The link scan of a profile built from outputs of the one-rule form
    lists only paths under that profile's directory. *)
Lemma build_loop_link_objects (cfg : config) (run : shell) (d : text) :
  In d profile_dirs ->
  Forall (fun f => no_obj_token f = true) (files cfg) ->
  (forall f, In f (files cfg) ->
     exists out, run (gcc_mm_command f) = Some out /\ one_rule_form out) ->
  exists script,
    build_loop run d (files cfg) (build_header d) = Ok script
    /\ Forall (fun p => exists t, p = d ++ t) (split (get_linker_prerequisites script)).
Proof.
  intros Hd Hfiles Hrun.
  destruct (build_loop_ok run d (files cfg)) as (rules & Hrules & Hloop).
  { intros f Hf. destruct (Hrun f Hf) as (out & Hout & (stem & rest & Heq & Hstem & _)).
    subst out. eexists.
    apply create_object_rule_split with (pre := stem ++ lit ".o") (post := rest).
    - rewrite Hout, <- app_assoc. reflexivity.
    - apply not_in_app; [apply word_char_nocolon; exact Hstem|].
      cbv. intros H; repeat (destruct H as [H|H]; [discriminate H|]); exact H. }
  assert (Hready : Forall (link_ready d) rules).
  { apply (forall2_forall _ _ _ _ Hrules). intros f r Hf Hr.
    destruct (Hrun f Hf) as (out & Hout & Hform).
    rewrite Forall_forall in Hfiles.
    exact (object_rule_link_ready run d f out r Hd (Hfiles f Hf) Hout Hform Hr). }
  destruct (header_link_free d Hd) as [[h' Hh] Hhfree].
  exists (build_header d ++ List.concat rules). split; [apply Hloop|].
  assert (Hends : Forall ends_nl rules)
    by (eapply Forall_impl; [|exact Hready]; intros r (H & _); exact H).
  unfold get_linker_prerequisites.
  rewrite linker_objects_flat, Hh, split_app_last_space by reflexivity.
  rewrite <- Hh, flat_map_app, Hhfree, split_concat by exact Hends.
  rewrite (link_scan_rules d) by exact Hready. simpl.
  rewrite split_join.
  - apply Forall_map. eapply Forall_impl; [|exact Hready].
    intros r (_ & _ & _ & _ & H). exact H.
  - apply Forall_map. eapply Forall_impl; [|exact Hready].
    intros r (_ & _ & H1 & H2 & _). split; assumption.
Qed.

End BuildExtra.

(** Every path found by the link scan is a word of the scanned text made of
    that path and a colon, and the path ends in [.o]. *)
Theorem linker_objects_sound (script o : text) :
  In o (linker_objects script) ->
  In (o ++ [COLON]) (split script) /\ exists stem, o = stem ++ lit ".o".
Proof.
  rewrite linker_objects_flat. intros H.
  apply in_flat_map in H as (w & Hw & Ho).
  unfold obj_of_word, ends_obj in Ho.
  destruct (list_eq_dec ascii_dec (last3 w) pattern) as [E|_]; [|destruct Ho].
  destruct Ho as [<-|[]].
  apply last3_pattern_split in E.
  remember (firstn (List.length w - 3) w) as a. clear Heqa. subst w.
  rewrite drop_last_obj. split.
  - rewrite <- app_assoc. exact Hw.
  - exists a. reflexivity.
Qed.

Lemma linker_objects_sound_witness :
  In (lit "./debug/a.o" ++ [COLON]) (split (lit "./debug/a.o: a.c a.h"))
  /\ exists stem, lit "./debug/a.o" = stem ++ lit ".o".
Proof. apply linker_objects_sound. vm_compute. left. reflexivity. Defined.

(** The link scan of a text cut at a whitespace character is the scan of
    the part before it followed by the scan of the part after it. *)
Theorem linker_objects_app (a b : text) (x : ascii) :
  is_space x = true ->
  linker_objects (a ++ x :: b) = linker_objects a ++ linker_objects b.
Proof.
  intros Hx. rewrite !linker_objects_flat, split_app_space by exact Hx.
  apply flat_map_app.
Qed.

Lemma linker_objects_app_witness :
  linker_objects (lit "x.o: x.c" ++ NL :: lit "y.o: y.c")
  = linker_objects (lit "x.o: x.c") ++ linker_objects (lit "y.o: y.c").
Proof. apply linker_objects_app. reflexivity. Defined.

(** [insert_source] keeps the target of the rule (the text before the first
    colon) and grows the rule by the path and two spaces. *)
Theorem insert_source_keeps_target (out file : text) :
  In COLON out ->
  exists s, insert_source out file = Ok s
    /\ rule_target s = rule_target out
    /\ List.length s = List.length out + List.length file + 2.
Proof.
  intros H. destruct (in_split_first COLON out H) as (pre & post & -> & Hpre).
  rewrite insert_source_split by exact Hpre. eexists. split; [reflexivity|].
  rewrite !rule_target_split by exact Hpre. split; [reflexivity|].
  rewrite !length_app. simpl. rewrite length_app. simpl. lia.
Qed.

Lemma insert_source_keeps_target_witness :
  exists s, insert_source (lit "a.o: a.h") (lit "a.c") = Ok s
    /\ rule_target s = rule_target (lit "a.o: a.h")
    /\ List.length s = List.length (lit "a.o: a.h") + List.length (lit "a.c") + 2.
Proof. apply insert_source_keeps_target. find_in. Defined.

(** The object rule's target is the output directory followed by the target
    printed by [gcc -MM], and the rule ends with the compilation recipe. *)
Theorem object_rule_target (run : shell) (d file out : text) :
  ~ In COLON d -> run (gcc_mm_command file) = Some out -> In COLON out ->
  exists r, create_object_rule run d file = Ok r
    /\ rule_target r = d ++ rule_target out
    /\ exists body, r = body ++ object_recipe.
Proof.
  intros Hd Hrun H. destruct (in_split_first COLON out H) as (pre & post & -> & Hpre).
  rewrite (create_object_rule_split run d file pre post Hrun Hpre).
  eexists. split; [reflexivity|]. split.
  - rewrite rule_target_split by exact Hpre.
    replace (d ++ pre ++ COLON :: SP :: file ++ SP :: post ++ object_recipe)
      with ((d ++ pre) ++ COLON :: SP :: file ++ SP :: post ++ object_recipe)
      by (rewrite <- app_assoc; reflexivity).
    apply rule_target_split. apply not_in_app; assumption.
  - exists (d ++ pre ++ COLON :: SP :: file ++ SP :: post).
    rewrite <- !app_assoc. simpl. rewrite <- !app_assoc. reflexivity.
Qed.

Lemma object_rule_target_witness :
  exists r, create_object_rule sample_shell release_dir (lit "./src/jobs.c") = Ok r
    /\ rule_target r = release_dir ++ rule_target (lit "jobs.o: ./src/jobs.c" ++ [NL])
    /\ exists body, r = body ++ object_recipe.
Proof.
  apply object_rule_target.
  - apply profile_dirs_no_colon. right. left. reflexivity.
  - reflexivity.
  - find_in.
Defined.

(** [build] fails exactly when some configured file's object rule fails,
    and then with the error of the first such file in list order. *)
Theorem build_error_first_failing_file (cfg : config) (run : shell) (d : text) (e : exn) :
  build cfg run d = Err e
  <-> exists pre f post, files cfg = pre ++ f :: post
        /\ (forall g, In g pre -> exists r, create_object_rule run d g = Ok r)
        /\ create_object_rule run d f = Err e.
Proof.
  assert (E : build cfg run d = Err e <-> build_loop run d (files cfg) (build_header d) = Err e).
  { unfold build. destruct (build_loop run d (files cfg) (build_header d)); simpl.
    - split; intros H; discriminate H.
    - tauto. }
  rewrite E. apply build_loop_err_iff.
Qed.

(** With an empty file list, [build] runs no [gcc -MM] at all and returns
    the profile header and a link rule with no prerequisites. *)
Theorem build_no_files (cfg : config) (run : shell) (d : text) :
  files cfg = [] ->
  build cfg run d
  = Ok (build_header d ++ d ++ executable_name ++ lit ": " ++ exe_recipe (libraries cfg)).
Proof.
  intros Hf. unfold build. rewrite Hf. simpl.
  assert (H : linker_objects (build_header d) = []).
  { unfold build_header.
    destruct (list_eq_dec ascii_dec d debug_dir); [vm_compute; reflexivity|].
    destruct (list_eq_dec ascii_dec d release_dir); vm_compute; reflexivity. }
  unfold create_exe_rule, get_linker_prerequisites. rewrite H. simpl join.
  rewrite <- !app_assoc. reflexivity.
Qed.

Lemma build_no_files_witness :
  build {| files := []; libraries := [lit "pthread"; lit "m"] |} noobj_shell debug_dir
  = Ok (build_header debug_dir ++ debug_dir ++ executable_name ++ lit ": "
        ++ exe_recipe [lit "pthread"; lit "m"]).
Proof. apply build_no_files. reflexivity. Defined.

(** With outputs of the one-rule form, no path of the debug link rule is a
    path of the release link rule: each profile links only objects under
    its own directory. *)
Theorem profiles_isolated (cfg : config) (run : shell) :
  Forall (fun f => no_obj_token f = true) (files cfg) ->
  (forall f, In f (files cfg) ->
     exists out, run (gcc_mm_command f) = Some out /\ one_rule_form out) ->
  exists sd sr,
    build_loop run debug_dir (files cfg) (build_header debug_dir) = Ok sd
    /\ build_loop run release_dir (files cfg) (build_header release_dir) = Ok sr
    /\ forall p, In p (split (get_linker_prerequisites sd)) ->
                 ~ In p (split (get_linker_prerequisites sr)).
Proof.
  intros Hfiles Hrun.
  destruct (build_loop_link_objects cfg run debug_dir (or_introl eq_refl) Hfiles Hrun)
    as (sd & Hsd & Hd).
  destruct (build_loop_link_objects cfg run release_dir (or_intror (or_introl eq_refl))
              Hfiles Hrun) as (sr & Hsr & Hr).
  exists sd, sr. split; [exact Hsd|]. split; [exact Hsr|].
  intros p Hp Hp'. rewrite Forall_forall in Hd, Hr.
  destruct (Hd p Hp) as [t1 ->]. destruct (Hr _ Hp') as [t2 E].
  discriminate E.
Qed.

Lemma profiles_isolated_witness :
  exists sd sr,
    build_loop sample_shell debug_dir (files default_config) (build_header debug_dir) = Ok sd
    /\ build_loop sample_shell release_dir (files default_config) (build_header release_dir) = Ok sr
    /\ forall p, In p (split (get_linker_prerequisites sd)) ->
                 ~ In p (split (get_linker_prerequisites sr)).
Proof.
  apply profiles_isolated.
  - apply Forall_forall. apply forallb_forall with (f := no_obj_token).
    vm_compute. reflexivity.
  - intros f Hf. apply sample_shell_one_rule_form. revert f Hf.
    apply forallb_forall. vm_compute. reflexivity.
Defined.

(** * Properties of kmap.py *)

Section Replace.

Variables old new : text.

Lemma is_prefix_spec (p s : text) : is_prefix p s = true <-> exists r, s = p ++ r.
Proof.
  revert s. induction p as [|x p IH]; intros s; simpl.
  - split; [intros _; exists s; reflexivity | reflexivity].
  - destruct s as [|y s].
    + split; [discriminate|]. intros [r H]. discriminate H.
    + rewrite andb_true_iff, IH. split.
      * intros [E [r ->]]. apply Ascii.eqb_eq in E. subst. exists r. reflexivity.
      * intros [r H]. injection H as -> ->. split; [apply Ascii.eqb_refl|].
        exists r. reflexivity.
Qed.

Lemma is_prefix_before (x : ascii) (a b : text) :
  ~ In x old -> is_prefix old (a ++ x :: b) = true -> is_prefix old a = true.
Proof.
  revert a. induction old as [|y o IH]; intros a Hx H; [reflexivity|].
  destruct a as [|c a]; simpl in *.
  - apply andb_prop in H as [H _]. apply Ascii.eqb_eq in H. subst.
    exfalso. apply Hx. left. reflexivity.
  - apply andb_prop in H as [H1 H2]. rewrite H1. simpl.
    apply IH; [intros H; apply Hx; right; exact H | exact H2].
Qed.

Lemma replace_skip (k : nat) (s : text) :
  replace_from old new k s = replace_from old new 0 (skipn k s).
Proof.
  revert k. induction s as [|c s IH]; intros k.
  - destruct k; reflexivity.
  - destruct k; [reflexivity|]. simpl. apply IH.
Qed.

Lemma replace_no_occurrence (s : text) :
  (forall a b, s <> a ++ old ++ b) -> replace_from old new 0 s = s.
Proof.
  induction s as [|c s IH]; intros H; [reflexivity|]. simpl.
  destruct (is_prefix old (c :: s)) eqn:E.
  - apply is_prefix_spec in E as [r E]. exfalso. apply (H [] r). exact E.
  - rewrite IH; [reflexivity|]. intros a b Hs. apply (H (c :: a) b). rewrite Hs. reflexivity.
Qed.

Hypothesis old_nonempty : old <> [].

(** A character outside [old] cuts the text into independently replaced
    parts. *)
Lemma replace_cut (x : ascii) (b : text) :
  ~ In x old ->
  forall a, replace_from old new 0 (a ++ x :: b)
            = replace_from old new 0 a ++ x :: replace_from old new 0 b.
Proof.
  intros Hx a. remember (List.length a) as n eqn:Hn. revert a Hn.
  induction n as [n IH] using lt_wf_ind. intros a Hn.
  destruct a as [|c a].
  - simpl. destruct old as [|y o]; [contradiction|]. simpl.
    destruct (Ascii.eqb y x) eqn:E; [apply Ascii.eqb_eq in E; subst; exfalso; apply Hx; left; reflexivity|].
    reflexivity.
  - change ((c :: a) ++ x :: b) with (c :: (a ++ x :: b)).
    cbn [replace_from].
    destruct (is_prefix old (c :: a ++ x :: b)) eqn:E.
    + assert (E' : is_prefix old (c :: a) = true)
        by (apply (is_prefix_before x (c :: a) b Hx); exact E).
      rewrite E'. rewrite !(replace_skip (List.length old - 1)).
      apply is_prefix_spec in E' as [r Er].
      assert (Hlen : List.length old - 1 <= List.length a).
      { apply (f_equal (@List.length ascii)) in Er. rewrite length_app in Er. simpl in Er. lia. }
      rewrite skipn_app. replace (List.length old - 1 - List.length a) with 0 by lia.
      simpl skipn at 2.
      rewrite (IH (List.length (skipn (List.length old - 1) a))); [|rewrite length_skipn; destruct old; [contradiction|]; simpl in *; lia|reflexivity].
      rewrite app_assoc. reflexivity.
    + assert (E' : is_prefix old (c :: a) = false).
      { destruct (is_prefix old (c :: a)) eqn:F; [|reflexivity].
        apply is_prefix_spec in F as [r F].
        assert (G : is_prefix old (c :: a ++ x :: b) = true).
        { apply is_prefix_spec. exists (r ++ x :: b).
          change (c :: a ++ x :: b) with ((c :: a) ++ x :: b).
          rewrite F, app_assoc. reflexivity. }
        congruence. }
      rewrite E'. rewrite (IH (List.length a)); [reflexivity| simpl in Hn; lia | reflexivity].
Qed.

Variable n0 : ascii.
Variable new' : text.
Hypothesis new_head : new = n0 :: new'.
Hypothesis n0_not_old : ~ In n0 old.

(** A prefix of the replaced text without the first character of [new] was
    already a prefix of the original text. *)
Lemma replace_prefix_back (s : text) :
  forall p, ~ In n0 p -> is_prefix p (replace_from old new 0 s) = true -> is_prefix p s = true.
Proof.
  remember (List.length s) as m eqn:Hm. revert s Hm.
  induction m as [m IH] using lt_wf_ind. intros s Hm p Hp H.
  destruct p as [|y p]; [reflexivity|].
  destruct s as [|c s]; [discriminate H|].
  cbn [replace_from] in H.
  destruct (is_prefix old (c :: s)) eqn:E.
  - rewrite new_head in H. simpl in H. apply andb_prop in H as [H _].
    apply Ascii.eqb_eq in H. subst. exfalso. apply Hp. left. reflexivity.
  - simpl in H |- *. apply andb_prop in H as [H1 H2]. rewrite H1. simpl.
    apply (IH (List.length s)); [simpl in Hm; lia | reflexivity | |exact H2].
    intros Hn. apply Hp. right. exact Hn.
Qed.

Variable o0 : ascii.
Variable old' : text.
Hypothesis old_head : old = o0 :: old'.
Hypothesis o0_not_new : ~ In o0 new.

(** No occurrence of [old] is left in, or created by, the replacement. *)
Lemma replace_removes_all (s : text) :
  forall a b, replace_from old new 0 s <> a ++ old ++ b.
Proof.
  remember (List.length s) as m eqn:Hm. revert s Hm.
  induction m as [m IH] using lt_wf_ind. intros s Hm a b H.
  destruct s as [|c s].
  - simpl in H. rewrite old_head in H. destruct a; discriminate H.
  - cbn [replace_from] in H.
    destruct (is_prefix old (c :: s)) eqn:E.
    + rewrite (replace_skip (List.length old - 1)) in H.
      apply app_eq_app in H as [l [[Hnew Hrest]|[Ha Hrest]]].
      * destruct l as [|y l].
        -- simpl in Hrest.
           refine (IH (List.length (skipn (List.length old - 1) s)) _ _ eq_refl [] b _).
           ++ rewrite length_skipn. simpl in Hm. rewrite old_head. simpl. lia.
           ++ simpl. symmetry. exact Hrest.
        -- rewrite old_head in Hrest. injection Hrest as -> _.
           apply o0_not_new. rewrite Hnew. apply in_or_app. right. left. reflexivity.
      * refine (IH (List.length (skipn (List.length old - 1) s)) _ _ eq_refl l b Hrest).
        rewrite length_skipn. simpl in Hm. rewrite old_head. simpl. lia.
    + destruct a as [|y a].
      * assert (Q : is_prefix old (replace_from old new 0 (c :: s)) = true).
        { cbn [replace_from]. rewrite E. apply is_prefix_spec. exists b. exact H. }
        apply replace_prefix_back in Q; [congruence|exact n0_not_old].
      * injection H as -> H.
        exact (IH (List.length s) ltac:(simpl in Hm; lia) s eq_refl a b H).
Qed.

End Replace.

Section Kmap.

Lemma not_in_existsb (x : ascii) (l : text) : existsb (Ascii.eqb x) l = false -> ~ In x l.
Proof.
  intros H Hin.
  assert (G : existsb (Ascii.eqb x) l = true)
    by (apply existsb_exists; exists x; split; [exact Hin | apply Ascii.eqb_refl]).
  congruence.
Qed.

Lemma remove_struct_replace (t : text) :
  remove_struct t = replace_from kv_pair_struct kv_pair_note 0 t.
Proof. reflexivity. Qed.

Lemma kv_pair_struct_nonempty : kv_pair_struct <> [].
Proof. discriminate. Qed.

Lemma kv_pair_struct_no_nl : ~ In NL kv_pair_struct.
Proof. apply not_in_existsb. vm_compute. reflexivity. Qed.

Lemma kv_pair_struct_no_slash : ~ In "/"%char kv_pair_struct.
Proof. apply not_in_existsb. vm_compute. reflexivity. Qed.

Lemma kv_pair_note_no_s : ~ In "s"%char kv_pair_note.
Proof. apply not_in_existsb. vm_compute. reflexivity. Qed.

Lemma remove_struct_cut (a b : text) :
  remove_struct (a ++ NL :: b) = remove_struct a ++ NL :: remove_struct b.
Proof.
  rewrite !remove_struct_replace.
  apply replace_cut; [exact kv_pair_struct_nonempty | exact kv_pair_struct_no_nl].
Qed.

Lemma remove_struct_clean (t a b : text) : remove_struct t <> a ++ kv_pair_struct ++ b.
Proof.
  rewrite remove_struct_replace.
  apply (replace_removes_all kv_pair_struct kv_pair_note "/"%char
           (lit "/kv_pair defined in kmap.h") eq_refl kv_pair_struct_no_slash
           "s"%char (lit "truct kv_pair { char *name; token_type typ; };") eq_refl
           kv_pair_note_no_s).
Qed.

Lemma remove_struct_fixed (t : text) :
  (forall a b, t <> a ++ kv_pair_struct ++ b) -> remove_struct t = t.
Proof. intros H. rewrite remove_struct_replace. apply replace_no_occurrence. exact H. Qed.

End Kmap.

Section Isolate.

Lemma split_on_aux_cut (sep : ascii) (b a : text) :
  forall cur, split_on_aux sep cur (a ++ sep :: b) = split_on_aux sep cur a ++ split_on sep b.
Proof.
  induction a as [|c a IH]; intros cur; simpl.
  - rewrite Ascii.eqb_refl. reflexivity.
  - destruct (Ascii.eqb c sep); [rewrite IH; reflexivity | apply IH].
Qed.

Lemma split_on_aux_none (sep : ascii) (s : text) :
  ~ In sep s -> forall cur, split_on_aux sep cur s = [rev cur ++ s].
Proof.
  induction s as [|c s IH]; intros Hs cur; simpl.
  - rewrite app_nil_r. reflexivity.
  - destruct (Ascii.eqb c sep) eqn:E.
    + apply Ascii.eqb_eq in E. subst. exfalso. apply Hs. left. reflexivity.
    + rewrite IH; [|intros H; apply Hs; right; exact H].
      simpl. rewrite <- app_assoc. reflexivity.
Qed.

Lemma fold_isolate_step (l : list text) :
  forall acc, fold_left isolate_step l acc = acc ++ flat_map line_types l.
Proof.
  induction l as [|i l IH]; intros acc; simpl.
  - rewrite app_nil_r. reflexivity.
  - rewrite IH. unfold isolate_step, line_types.
    destruct (search_field i); simpl; rewrite <- ?app_assoc; reflexivity.
Qed.

Lemma isolate_flat (t : text) :
  isolate t = flat_map line_types (filter has_token (split_on NL t)).
Proof. unfold isolate. apply fold_isolate_step. Qed.

Lemma field_spec (s w : text) :
  field s = Some w -> exists rest, s = w ++ COLON :: rest /\ ~ In COLON w.
Proof.
  revert w. induction s as [|c s IH]; intros w H; simpl in H; [discriminate H|].
  destruct (Ascii.eqb c COLON) eqn:E.
  - injection H as <-. apply Ascii.eqb_eq in E. subst. exists s. split; [reflexivity | intros []].
  - destruct (field s) as [w'|] eqn:F; simpl in H; [|discriminate H].
    injection H as <-. destruct (IH w' eq_refl) as (rest & -> & Hw).
    exists rest. split; [reflexivity|].
    intros [Hc|Hc]; [subst; rewrite Ascii.eqb_refl in E; discriminate E | exact (Hw Hc)].
Qed.

Lemma field_colon_free (w rest : text) :
  ~ In COLON w -> field (w ++ COLON :: rest) = Some w.
Proof.
  induction w as [|c w IH]; intros Hw; simpl.
  - rewrite ?Ascii.eqb_refl. reflexivity.
  - destruct (Ascii.eqb c COLON) eqn:E.
    + apply Ascii.eqb_eq in E. subst. exfalso. apply Hw. left. reflexivity.
    + rewrite IH; [reflexivity | intros H; apply Hw; right; exact H].
Qed.

Lemma search_field_spec (s m : text) :
  search_field s = Some m -> exists w, m = COLON :: w ++ [COLON] /\ ~ In COLON w.
Proof.
  induction s as [|c s IH]; intros H; simpl in H; [discriminate H|].
  destruct (Ascii.eqb c COLON); [|exact (IH H)].
  unfold colon_field in H. destruct (field s) as [[|x w]|] eqn:F; try exact (IH H).
  injection H as <-. apply field_spec in F as (rest & _ & Hw).
  exists (x :: w). split; [reflexivity | exact Hw].
Qed.

Lemma search_field_first (pre w post : text) :
  ~ In COLON pre -> ~ In COLON w -> w <> [] ->
  search_field (pre ++ COLON :: w ++ COLON :: post) = Some (COLON :: w ++ [COLON]).
Proof.
  intros Hpre Hw Hne. induction pre as [|c pre IH]; simpl.
  - rewrite ?Ascii.eqb_refl. unfold colon_field. rewrite field_colon_free by exact Hw.
    destruct w; [contradiction | reflexivity].
  - destruct (Ascii.eqb c COLON) eqn:E.
    + apply Ascii.eqb_eq in E. subst. exfalso. apply Hpre. left. reflexivity.
    + apply IH. intros H. apply Hpre. right. exact H.
Qed.

Lemma inner_of_match (w : text) : drop_last (skipn 1 (COLON :: w ++ [COLON])) = w.
Proof.
  unfold drop_last. simpl skipn. rewrite length_app. simpl.
  replace (List.length w + 1 - 1) with (List.length w) by lia.
  apply firstn_app_length.
Qed.

Lemma lstrip_nonspace (s : text) (c : ascii) (r : text) :
  lstrip s = c :: r -> is_space c = false.
Proof.
  induction s as [|x s IH]; simpl; intros H; [discriminate H|].
  destruct (is_space x) eqn:E; [exact (IH H)|]. injection H as -> _. exact E.
Qed.

Lemma lstrip_suffix (s : text) : exists p, s = p ++ lstrip s.
Proof.
  induction s as [|x s IH]; simpl; [exists []; reflexivity|].
  destruct (is_space x).
  - destruct IH as [p Hp]. exists (x :: p). simpl. rewrite <- Hp. reflexivity.
  - exists []. reflexivity.
Qed.

Lemma lstrip_keeps_last (x : text) (c : ascii) :
  is_space c = false -> exists v, lstrip (x ++ [c]) = v ++ [c].
Proof.
  intros Hc. induction x as [|y x IH]; simpl.
  - rewrite Hc. exists []. reflexivity.
  - destruct (is_space y); [exact IH|]. exists (y :: x). reflexivity.
Qed.

Lemma strip_colon_free (w : text) : ~ In COLON w -> ~ In COLON (strip w).
Proof.
  intros Hw H. unfold strip in H. apply in_rev in H.
  destruct (lstrip_suffix (rev (lstrip w))) as [p Hp].
  destruct (lstrip_suffix w) as [q Hq].
  apply Hw. rewrite Hq. apply in_or_app. right. apply in_rev.
  rewrite Hp. apply in_or_app. right. exact H.
Qed.

Lemma strip_first (w : text) (c : ascii) (rest : text) :
  strip w = c :: rest -> is_space c = false.
Proof.
  unfold strip. destruct (lstrip w) as [|c' u] eqn:U; simpl; [discriminate|].
  intros H. pose proof (lstrip_nonspace w c' u U) as Hc'.
  destruct (lstrip_keeps_last (rev u) c' Hc') as [v Hv]. rewrite Hv in H.
  rewrite rev_app_distr in H. simpl in H. injection H as -> _. exact Hc'.
Qed.

Lemma strip_last (w : text) (c : ascii) (pre : text) :
  strip w = pre ++ [c] -> is_space c = false.
Proof.
  unfold strip. intros H. apply (f_equal (@rev ascii)) in H.
  rewrite rev_involutive, rev_app_distr in H. simpl in H.
  exact (lstrip_nonspace _ _ _ H).
Qed.

End Isolate.

(** * Further properties of kmap.py *)

(** [remove_struct] leaves no copy of the struct definition: neither one
    that was in its input nor one formed by the replacement text and its
    surroundings. *)
Theorem remove_struct_leaves_no_struct (t a b : text) :
  remove_struct t <> a ++ kv_pair_struct ++ b.
Proof. exact (remove_struct_clean t a b). Qed.

(** Applying [remove_struct] twice is the same as applying it once. *)
Theorem remove_struct_idempotent (t : text) :
  remove_struct (remove_struct t) = remove_struct t.
Proof. apply remove_struct_fixed. intros a b. apply remove_struct_clean. Qed.

(** On text that does not hold the struct definition, [remove_struct]
    changes nothing. *)
Theorem remove_struct_identity (t : text) :
  (forall a b, t <> a ++ kv_pair_struct ++ b) -> remove_struct t = t.
Proof. apply remove_struct_fixed. Qed.

Lemma remove_struct_identity_witness :
  (forall a b, lit "int x;" <> a ++ kv_pair_struct ++ b)
  /\ remove_struct (lit "int x;") = lit "int x;".
Proof.
  assert (H : forall a b, lit "int x;" <> a ++ kv_pair_struct ++ b).
  { intros a b E. apply (f_equal (@List.length ascii)) in E.
    rewrite !length_app in E. simpl in E. lia. }
  split; [exact H | apply remove_struct_identity; exact H].
Defined.

(** [remove_struct] works line by line: the struct definition holds no
    newline, so the text on either side of a newline is processed on its
    own. *)
Theorem remove_struct_by_line (a b : text) :
  remove_struct (a ++ NL :: b) = remove_struct a ++ NL :: remove_struct b.
Proof. apply remove_struct_cut. Qed.

(** When gperf succeeds with output [t], kmap.py prints the diagnostic push
    and the -Wconversion suppression, the two include lines, [t] with the
    struct definition removed, the diagnostic pop, each separated by a blank
    line, and exits with status 0. *)
Theorem kmap_output (run : shell) (t : text) :
  run gperf_command = Some t ->
  kmap_main run =
    (pragma_push ++ DNL ++ pragma_flag ++ DNL ++ str_directive ++ DNL
     ++ api_directive ++ DNL ++ remove_struct t ++ DNL ++ pragma_pop ++ [NL], 0%Z).
Proof.
  intros H. unfold kmap_main, exec_gperf. rewrite H. simpl fold_left.
  set (W := pragma_push ++ DNL ++ pragma_flag ++ DNL ++ str_directive ++ DNL
            ++ api_directive ++ [NL]).
  assert (E : add_diagnostic (add_include t) = W ++ NL :: (t ++ NL :: (NL :: pragma_pop)))
    by reflexivity.
  rewrite E, (remove_struct_cut W), (remove_struct_cut t (NL :: pragma_pop)).
  assert (EW : remove_struct W = W) by (vm_compute; reflexivity).
  assert (EP : remove_struct (NL :: pragma_pop) = NL :: pragma_pop) by (vm_compute; reflexivity).
  rewrite EW, EP. f_equal. subst W. unfold DNL.
  rewrite <- !app_assoc. simpl. rewrite <- !app_assoc. reflexivity.
Qed.

Lemma kmap_output_witness :
  sample_gperf gperf_command
    = Some (lit "/* C code produced by gperf */" ++ [NL] ++ kv_pair_struct ++ [NL]
            ++ lit "static const struct kv_pair wordlist[] = {0};" ++ [NL])
  /\ kmap_main sample_gperf =
    (pragma_push ++ DNL ++ pragma_flag ++ DNL ++ str_directive ++ DNL ++ api_directive
     ++ DNL ++ remove_struct (lit "/* C code produced by gperf */" ++ [NL] ++ kv_pair_struct
                              ++ [NL] ++ lit "static const struct kv_pair wordlist[] = {0};"
                              ++ [NL])
     ++ DNL ++ pragma_pop ++ [NL], 0%Z).
Proof. split; [reflexivity | apply kmap_output; reflexivity]. Defined.

(** Whatever gperf prints, the standard output of kmap.py holds no copy of
    the struct definition. *)
Theorem kmap_output_struct_free (run : shell) (a b : text) :
  fst (kmap_main run) <> a ++ kv_pair_struct ++ b.
Proof.
  assert (G : forall x, remove_struct x ++ [NL] <> a ++ kv_pair_struct ++ b).
  { intros x H. rewrite app_assoc in H. apply app_eq_app in H as [l [[H1 H2]|[H1 H2]]].
    - apply (remove_struct_clean x a l). rewrite H1, app_assoc; reflexivity.
    - destruct l as [|y l].
      + rewrite app_nil_r in H1. apply (remove_struct_clean x a []).
        rewrite <- H1, app_nil_r; reflexivity.
      + destruct l; [|destruct l; discriminate H2].
        injection H2 as <- Hb.
        assert (Ek : kv_pair_struct = lit "struct kv_pair { char *name; token_type typ; }" ++ [";"%char])
          by reflexivity.
        rewrite Ek, app_assoc in H1. apply app_inj_tail in H1 as [_ Hc]. discriminate Hc. }
  unfold kmap_main. destruct (exec_gperf run) as [t|e].
  - apply G.
  - destruct a; discriminate.
Qed.

(** * Properties of [TestScanner.isolate] (test_scanner.py) *)

(** Every token type returned by [isolate] is colon free and has no leading
    or trailing whitespace. *)
Theorem isolate_types_clean (t ty : text) :
  In ty (isolate t) ->
  ~ In COLON ty
  /\ (forall c rest, ty = c :: rest -> is_space c = false)
  /\ (forall pre c, ty = pre ++ [c] -> is_space c = false).
Proof.
  rewrite isolate_flat. intros H. apply in_flat_map in H as (i & _ & Hi).
  unfold line_types in Hi. destruct (search_field i) as [m|] eqn:Em; [|destruct Hi].
  destruct Hi as [<-|[]].
  apply search_field_spec in Em as (w & -> & Hw). rewrite inner_of_match.
  split; [apply strip_colon_free; exact Hw|].
  split; [intros c rest; apply strip_first | intros pre c; apply strip_last].
Qed.

Lemma isolate_types_clean_witness :
  In (lit "IDENTIFIER") (isolate (lit "TOKEN 3 : IDENTIFIER  : x"))
  /\ ~ In COLON (lit "IDENTIFIER")
  /\ (forall c rest, lit "IDENTIFIER" = c :: rest -> is_space c = false)
  /\ (forall pre c, lit "IDENTIFIER" = pre ++ [c] -> is_space c = false).
Proof.
  assert (H : In (lit "IDENTIFIER") (isolate (lit "TOKEN 3 : IDENTIFIER  : x")))
    by (vm_compute; left; reflexivity).
  split; [exact H | apply (isolate_types_clean (lit "TOKEN 3 : IDENTIFIER  : x")); exact H].
Defined.

(** [isolate] treats the lines of its input independently: the types of a
    text are those of the part before a newline followed by those of the
    part after it. *)
Theorem isolate_by_line (a b : text) :
  isolate (a ++ NL :: b) = isolate a ++ isolate b.
Proof.
  rewrite !isolate_flat. unfold split_on. rewrite split_on_aux_cut.
  rewrite filter_app, flat_map_app. reflexivity.
Qed.

(** A single line containing TOKEN whose first colon starts a non-empty
    colon-free field closed by a second colon yields exactly that field,
    stripped of surrounding whitespace. *)
Theorem isolate_one_line (pre w post : text) :
  ~ In NL (pre ++ COLON :: w ++ COLON :: post) ->
  has_token (pre ++ COLON :: w ++ COLON :: post) = true ->
  ~ In COLON pre -> ~ In COLON w -> w <> [] ->
  isolate (pre ++ COLON :: w ++ COLON :: post) = [strip w].
Proof.
  intros Hnl Ht Hpre Hw Hne. rewrite isolate_flat. unfold split_on.
  rewrite split_on_aux_none by exact Hnl. simpl. rewrite Ht. simpl.
  unfold line_types. rewrite search_field_first by assumption.
  rewrite inner_of_match. reflexivity.
Qed.

Lemma isolate_one_line_witness :
  isolate (lit "TOKEN 3 " ++ COLON :: lit " IDENTIFIER  " ++ COLON :: lit " x")
  = [strip (lit " IDENTIFIER  ")].
Proof.
  apply isolate_one_line.
  - apply not_in_existsb. vm_compute. reflexivity.
  - vm_compute. reflexivity.
  - apply not_in_existsb. vm_compute. reflexivity.
  - apply not_in_existsb. vm_compute. reflexivity.
  - discriminate.
Defined.
